(** * simple-possibilities.py: exhaustive search of a two-row tile game

    A shallow embedding of [GameState], [dice_rolls], [AllGamesResult] and
    [find_all_games], followed by the properties of the expansion
    ([get_next_states]) and of the search ([find_all_games]).

    Python integers are unbounded, hence [Z].  The two rows of a
    [GameState] are Python lists, hence [list bool]; the constructor
    always builds rows of twelve flags, which is the predicate [wf].
    Exceptions are results of type [res]; the recursion of the source
    is bounded by an explicit fuel, and running out of it is a result of
    its own ([OutOfFuel]) that is proved never to occur. *)

From Stdlib Require Import ZArith Lia Bool.
From stdpp Require Import base list numbers sorting.

Local Open Scope Z_scope.

(** ** Results and exceptions *)

Inductive exn : Type :=
| ValueError   (* zip(..., strict=True) on rows of different lengths *)
| IndexError   (* list assignment index out of range *)
| OutOfFuel.   (* the bound of the model on the recursion depth *)

Inductive res (A : Type) : Type :=
| OK (a : A)
| Raise (e : exn).

Arguments OK {A} a.
Arguments Raise {A} e.

Definition res_bind {A B : Type} (m : res A) (k : A -> res B) : res B :=
  match m with
  | OK a => k a
  | Raise e => Raise e
  end.

Notation "'do' x <- m ; k" := (res_bind m (fun x => k))
  (at level 10, x name, m at level 100, k at level 200,
   format "'[v' 'do'  x  <-  m ; '/' k ']'").

(** ** Python lists *)

(** [range(lo, hi)] *)
Definition range (lo hi : Z) : list Z := seqZ lo (hi - lo).

(** [l[i] = x]: a negative index counts from the end, an index out of
    range raises [IndexError]. *)
Definition list_assign {A : Type} (l : list A) (i : Z) (x : A) : res (list A) :=
  let n := Z.of_nat (length l) in
  if (0 <=? i) && (i <? n) then OK (<[Z.to_nat i := x]> l)
  else if (- n <=? i) && (i <? 0) then OK (<[Z.to_nat (n + i) := x]> l)
  else Raise IndexError.

(** [for a, b, c in zip(xs, ys, zs, strict=True): body], the body acting
    on a threaded state [S].  The tuples are produced as long as the
    three lists all have an element; when one of them is exhausted and
    another is not, [ValueError] is raised. *)
Fixpoint for_zip_strict {A B C S : Type}
    (xs : list A) (ys : list B) (zs : list C)
    (body : A -> B -> C -> S -> res S) (st : S) : res S :=
  match xs, ys, zs with
  | [], [], [] => OK st
  | x :: xs', y :: ys', z :: zs' =>
      do st' <- body x y z st;
      for_zip_strict xs' ys' zs' body st'
  | _, _, _ => Raise ValueError
  end.

(** [for x in xs: body] on a threaded state. *)
Fixpoint for_each {A S : Type} (xs : list A) (body : A -> S -> res S) (st : S)
    : res S :=
  match xs with
  | [] => OK st
  | x :: xs' => do st' <- body x st; for_each xs' body st'
  end.

(** [all(l)] *)
Definition all (l : list bool) : bool := forallb (fun b => b) l.

(** ** class GameState *)

Record GameState : Type := mkGameState {
  _front_row : list bool;  (* is flipped in front *)
  _back_row : list bool    (* is flipped in back *)
}.

(** [GameState.__init__] *)
Definition GameState_init : GameState :=
  {| _front_row := replicate 12 false; _back_row := replicate 12 false |}.

(** [new_state._front_row[i] = True] on a copy of [state] *)
Definition set_front (state : GameState) (i : Z) : res GameState :=
  do row <- list_assign (_front_row state) i true;
  OK {| _front_row := row; _back_row := _back_row state |}.

(** [new_state._back_row[i] = True] on a copy of [state] *)
Definition set_back (state : GameState) (i : Z) : res GameState :=
  do row <- list_assign (_back_row state) i true;
  OK {| _front_row := _front_row state; _back_row := row |}.

(** [recur_helper], the closure of [get_next_states]: [self] is the
    receiver captured by the closure, [result] the list it appends to.
    The flags zipped with the values are those of [self], the state the
    expansion was called on, while the copy that is modified is [state]. *)
Fixpoint recur_helper (self : GameState) (fuel : nat) (roll_remaining : Z)
    (state : GameState) (result : list GameState) {struct fuel}
    : res (list GameState) :=
  if roll_remaining =? 0 then OK (result ++ [state])
  else
    match fuel with
    | O => Raise OutOfFuel
    | S fuel' =>
        let vals := range 1 13 in
        for_zip_strict vals (_front_row self) (_back_row self)
          (fun val front_flipped back_flipped result =>
             if front_flipped && back_flipped then OK result
             else
               let new_rem := roll_remaining - val in
               if 0 <=? new_rem then
                 do new_state <-
                   (if front_flipped then set_back state (val - 1)
                    else set_front state (val - 1));
                 recur_helper self fuel' new_rem new_state result
               else OK result)
          result
    end.

(** [GameState.get_next_states].  Every recursive call lowers the
    remaining roll by at least one, so [S (Z.to_nat roll)] levels are
    enough (see [recur_helper_fuel]). *)
Definition get_next_states (self : GameState) (roll : Z) : res (list GameState) :=
  recur_helper self (S (Z.to_nat roll)) roll self [].

(** [GameState.is_won] *)
Definition is_won (self : GameState) : bool :=
  all (_front_row self) && all (_back_row self).

(** ** dice_rolls *)

Definition dice_rolls (num_sides : Z) : list Z :=
  let rolls_range := range 1 (num_sides + 1) in
  flat_map (fun a => map (fun b => a + b) rolls_range) rolls_range.

(** ** class AllGamesResult *)

Record AllGamesResult : Type := mkAllGamesResult {
  num_won : Z;
  num_lost : Z
}.

(** [AllGamesResult.__add__] *)
Definition AllGamesResult_add (self other : AllGamesResult) : AllGamesResult :=
  mkAllGamesResult (num_won self + num_won other) (num_lost self + num_lost other).

(** ** find_all_games *)

Fixpoint find_all_games (fuel : nat) (state : GameState) {struct fuel}
    : res AllGamesResult :=
  if is_won state then OK (mkAllGamesResult 1 0)
  else
    match fuel with
    | O => Raise OutOfFuel
    | S fuel' =>
        for_each (dice_rolls 6)
          (fun roll result =>
             do next_states <- get_next_states state roll;
             let result :=
               match next_states with
               | [] => AllGamesResult_add result (mkAllGamesResult 0 1)
               | _ => result
               end in
             for_each next_states
               (fun next_state result =>
                  do r <- find_all_games fuel' next_state;
                  OK (AllGamesResult_add result r))
               result)
          (mkAllGamesResult 0 0)
    end.

(** The default argument of [find_all_games]: the starting state. *)
Definition find_all_games_default (fuel : nat) : res AllGamesResult :=
  find_all_games fuel GameState_init.

(** ** Selection paths

    [recur_helper] with one ghost argument: [path], the tile values
    selected so far on the way from the call of [get_next_states] to the
    current call.  Each recorded successor is paired with the path that
    produced it.  Apart from [path] the text is that of [recur_helper]
    (see [get_next_states_traced_erase]). *)
Fixpoint recur_helper_traced (self : GameState) (fuel : nat) (roll_remaining : Z)
    (path : list Z) (state : GameState) (result : list (list Z * GameState))
    {struct fuel} : res (list (list Z * GameState)) :=
  if roll_remaining =? 0 then OK (result ++ [(path, state)])
  else
    match fuel with
    | O => Raise OutOfFuel
    | S fuel' =>
        let vals := range 1 13 in
        for_zip_strict vals (_front_row self) (_back_row self)
          (fun val front_flipped back_flipped result =>
             if front_flipped && back_flipped then OK result
             else
               let new_rem := roll_remaining - val in
               if 0 <=? new_rem then
                 do new_state <-
                   (if front_flipped then set_back state (val - 1)
                    else set_front state (val - 1));
                 recur_helper_traced self fuel' new_rem (path ++ [val])
                   new_state result
               else OK result)
          result
    end.

Definition get_next_states_traced (self : GameState) (roll : Z)
    : res (list (list Z * GameState)) :=
  recur_helper_traced self (S (Z.to_nat roll)) roll [] self [].

(** ** Well-formed states and the enumeration of the paths *)

(** A state as the constructor builds it: twelve flags in each row. *)
Definition wf (s : GameState) : Prop :=
  length (_front_row s) = 12%nat /\ length (_back_row s) = 12%nat.

(** [state] has rows as long as those of [self]. *)
Definition same_shape (self state : GameState) : Prop :=
  length (_front_row state) = length (_front_row self) /\
  length (_back_row state) = length (_back_row self).

(** The tuples of the loop of [recur_helper] on rows of equal lengths:
    the value of a tile with its two flags in [self]. *)
Definition tiles (self : GameState) : list (Z * (bool * bool)) :=
  zip (range 1 13) (zip (_front_row self) (_back_row self)).

(** One selection: the value of the tile and its front flag in [self]
    (false: the front flag is set, true: the back flag is set). *)
Definition step : Type := Z * bool.

(** What one selection does to the copy of the state. *)
Definition apply_step (state : GameState) (st : step) : GameState :=
  if st.2
  then {| _front_row := _front_row state;
          _back_row := <[Z.to_nat (st.1 - 1) := true]> (_back_row state) |}
  else {| _front_row := <[Z.to_nat (st.1 - 1) := true]> (_front_row state);
          _back_row := _back_row state |}.

Definition run (state : GameState) (p : list step) : GameState :=
  foldl apply_step state p.

(** The selection sequences [recur_helper] follows down to a remaining
    roll of zero, in the order in which it records them. *)
Fixpoint paths (ts : list (Z * (bool * bool))) (fuel : nat) (roll_remaining : Z)
    {struct fuel} : list (list step) :=
  if roll_remaining =? 0 then [[]]
  else
    match fuel with
    | O => []
    | S fuel' =>
        flat_map
          (fun t : Z * (bool * bool) =>
             if t.2.1 && t.2.2 then []
             else if 0 <=? roll_remaining - t.1
                  then map (cons (t.1, t.2.1)) (paths ts fuel' (roll_remaining - t.1))
                  else [])
          ts
    end.

(** ** Predicates on states *)

(** Every flag set in [r] is set in [r'] (rows of the same length). *)
Definition row_subset (r r' : list bool) : bool :=
  Nat.eqb (length r) (length r') &&
  forallb (fun p : bool * bool => implb p.1 p.2) (zip r r').

Definition flags_subset (s s' : GameState) : bool :=
  row_subset (_front_row s) (_front_row s') &&
  row_subset (_back_row s) (_back_row s').

(** The back flag of a tile is set only if its front flag is. *)
Definition front_before_back (s : GameState) : bool :=
  row_subset (_back_row s) (_front_row s).

(** The flags that are not set yet. *)
Definition unflipped (row : list bool) : nat :=
  length (List.filter negb row).

Definition remaining (s : GameState) : nat :=
  (unflipped (_front_row s) + unflipped (_back_row s))%nat.

(** [result += r] for each [r] of a list, from [AllGamesResult(0, 0)]. *)
Definition sum_results (rs : list AllGamesResult) : AllGamesResult :=
  foldl AllGamesResult_add (mkAllGamesResult 0 0) rs.

(** How often a tile value is selected on a path. *)
Definition selections (val : Z) (path : list Z) : nat :=
  length (List.filter (Z.eqb val) path).

(** Lexicographic order on paths: the order in which a loop over
    increasing tile values, restarted at every level, visits them. *)
Inductive lex_lt : list Z -> list Z -> Prop :=
| lex_nil : forall y q, lex_lt [] (y :: q)
| lex_head : forall x y p q, x < y -> lex_lt (x :: p) (y :: q)
| lex_tail : forall x p q, lex_lt p q -> lex_lt (x :: p) (x :: q).

(** ** Definitions for the statements *)

(** The result of a call with a function applied to the value returned. *)
Definition res_map {A B : Type} (f : A -> B) (m : res A) : res B :=
  match m with
  | OK a => OK (f a)
  | Raise e => Raise e
  end.

(** The successor recorded for a path, with the tile values of it. *)
Definition record (path : list Z) (state : GameState) (p : list step)
    : list Z * GameState :=
  (path ++ map fst p, run state p).

(** A selection the loop can make on [self]: a tile of the board whose
    flags in [self] are not both set; its second component is the front
    flag of the tile in [self]. *)
Definition selectable (self : GameState) (st : step) : Prop :=
  1 <= st.1 <= 12 /\
  _front_row self !! Z.to_nat (st.1 - 1) = Some st.2 /\
  (st.2 = true -> _back_row self !! Z.to_nat (st.1 - 1) = Some false).

(** What one roll adds to the accumulator of [find_all_games]. *)
Definition roll_contribution (fuel : nat) (state : GameState) (roll : Z)
    (out : AllGamesResult) : Prop :=
  exists next_states : list GameState,
    get_next_states state roll = OK next_states /\
    match next_states with
    | [] => out = mkAllGamesResult 0 1
    | _ => exists rs : list AllGamesResult,
             Forall2 (fun s' r => find_all_games fuel s' = OK r) next_states rs /\
             out = sum_results rs
    end.

(** The row in which exactly the tiles of [flipped] are flipped. *)
Definition row_of (flipped : list Z) : list bool :=
  map (fun val => existsb (Z.eqb val) flipped) (range 1 13).

Definition board (front back : list Z) : GameState :=
  {| _front_row := row_of front; _back_row := row_of back |}.

(** No two recorded paths select the same multiset of tile values. *)
Definition distinct_combinations (recorded : list (list Z)) : Prop :=
  forall (i j : nat) (p q : list Z),
    i <> j -> recorded !! i = Some p -> recorded !! j = Some q -> ~ p ≡ₚ q.

(** The test the loop of [recur_helper] makes on the tile of value [val]:
    the tile is on the board of [self] and its two flags in [self] are
    not both set. *)
Definition open_tile (self : GameState) (val : Z) : bool :=
  (1 <=? val) && (val <=? 12) &&
  match _front_row self !! Z.to_nat (val - 1),
        _back_row self !! Z.to_nat (val - 1) with
  | Some f, Some b => negb (f && b)
  | _, _ => false
  end.

(** The sum of the tile values of a path. *)
Definition path_sum (path : list Z) : Z := foldr Z.add 0 path.

(** The selection [st] is a selection of the tile at index [i]. *)
Definition hits (i : nat) (st : step) : bool :=
  (Z.to_nat (st.1 - 1) =? i)%nat.

(** * Lemmas *)

(** ** The result monad and the loops *)

Lemma list_assign_in_range {A : Type} (l : list A) (i : Z) (x : A) :
  0 <= i < Z.of_nat (length l) ->
  list_assign l i x = OK (<[Z.to_nat i := x]> l).
Proof.
  intros Hi. unfold list_assign.
  destruct (Z.leb_spec 0 i); [|lia].
  destruct (Z.ltb_spec i (Z.of_nat (length l))); [|lia].
  reflexivity.
Qed.

Lemma for_zip_strict_zip {A B C S : Type} (xs : list A) (ys : list B)
    (zs : list C) (body : A -> B -> C -> S -> res S) (st : S) :
  length xs = length ys -> length ys = length zs ->
  for_zip_strict xs ys zs body st =
  for_each (zip xs (zip ys zs)) (fun t => body t.1 t.2.1 t.2.2) st.
Proof.
  revert ys zs st.
  induction xs as [|x xs IH]; intros [|y ys] [|z zs] st Hxy Hyz;
    simpl in *; try discriminate; [reflexivity|].
  destruct (body x y z st) as [st'|e]; simpl; [|reflexivity].
  apply IH; congruence.
Qed.

(** ** The tuples of the loop *)

Lemma length_range_1_13 : length (range 1 13) = 12%nat.
Proof. reflexivity. Qed.

Lemma tiles_lookup (self : GameState) (i : nat) (t : Z * (bool * bool)) :
  tiles self !! i = Some t ->
  t.1 = Z.of_nat i + 1 /\ (i < 12)%nat /\
  _front_row self !! i = Some t.2.1 /\ _back_row self !! i = Some t.2.2.
Proof.
  unfold tiles, range. intros H.
  apply lookup_zip_with_Some in H as (v & fb & -> & Hv & Hfb).
  apply lookup_zip_with_Some in Hfb as (f & b & -> & Hf & Hb).
  apply lookup_seqZ in Hv as [-> Hi]. simpl. split_and!; auto; lia.
Qed.

Lemma tiles_elem (self : GameState) (t : Z * (bool * bool)) :
  t ∈ tiles self ->
  1 <= t.1 <= 12 /\
  _front_row self !! Z.to_nat (t.1 - 1) = Some t.2.1 /\
  _back_row self !! Z.to_nat (t.1 - 1) = Some t.2.2.
Proof.
  intros [i Hi]%list_elem_of_lookup.
  apply tiles_lookup in Hi as (Hv & Hlt & Hf & Hb).
  replace (Z.to_nat (t.1 - 1)) with i by lia.
  split_and!; auto; lia.
Qed.

(** ** One selection on a state of the right shape *)

Lemma same_shape_refl (self : GameState) : same_shape self self.
Proof. split; reflexivity. Qed.

Lemma same_shape_apply_step (self state : GameState) (st : step) :
  same_shape self state -> same_shape self (apply_step state st).
Proof.
  intros [Hf Hb]. unfold apply_step, same_shape.
  destruct st.2; simpl; rewrite ?length_insert; auto.
Qed.

Lemma same_shape_run (self state : GameState) (p : list step) :
  same_shape self state -> same_shape self (run state p).
Proof.
  revert state. induction p as [|st p IH]; intros state H; simpl; [done|].
  apply IH, same_shape_apply_step, H.
Qed.

(** The assignment of the loop body never raises on a tile of the loop:
    it is [apply_step]. *)
Lemma select_tile (self state : GameState) (t : Z * (bool * bool)) :
  wf self -> same_shape self state -> 1 <= t.1 <= 12 ->
  (if t.2.1 then set_back state (t.1 - 1) else set_front state (t.1 - 1)) =
  OK (apply_step state (t.1, t.2.1)).
Proof.
  intros [Hf Hb] [Hsf Hsb] Hv. unfold apply_step, set_back, set_front. simpl.
  destruct t.2.1; rewrite list_assign_in_range by lia; reflexivity.
Qed.

(** ** The expansion is the enumeration of the paths *)

Lemma recur_helper_traced_S (self : GameState) (fuel : nat) (roll_remaining : Z)
    (path : list Z) (state : GameState) (result : list (list Z * GameState)) :
  recur_helper_traced self (S fuel) roll_remaining path state result =
  if roll_remaining =? 0 then OK (result ++ [(path, state)])
  else
    for_zip_strict (range 1 13) (_front_row self) (_back_row self)
      (fun val front_flipped back_flipped result =>
         if front_flipped && back_flipped then OK result
         else
           if 0 <=? roll_remaining - val then
             do new_state <-
               (if front_flipped then set_back state (val - 1)
                else set_front state (val - 1));
             recur_helper_traced self fuel (roll_remaining - val) (path ++ [val])
               new_state result
           else OK result)
      result.
Proof. reflexivity. Qed.

Lemma recur_helper_S (self : GameState) (fuel : nat) (roll_remaining : Z)
    (state : GameState) (result : list GameState) :
  recur_helper self (S fuel) roll_remaining state result =
  if roll_remaining =? 0 then OK (result ++ [state])
  else
    for_zip_strict (range 1 13) (_front_row self) (_back_row self)
      (fun val front_flipped back_flipped result =>
         if front_flipped && back_flipped then OK result
         else
           if 0 <=? roll_remaining - val then
             do new_state <-
               (if front_flipped then set_back state (val - 1)
                else set_front state (val - 1));
             recur_helper self fuel (roll_remaining - val) new_state result
           else OK result)
      result.
Proof. reflexivity. Qed.

Lemma paths_S (ts : list (Z * (bool * bool))) (fuel : nat) (roll_remaining : Z) :
  paths ts (S fuel) roll_remaining =
  if roll_remaining =? 0 then [[]]
  else
    flat_map
      (fun t : Z * (bool * bool) =>
         if t.2.1 && t.2.2 then []
         else if 0 <=? roll_remaining - t.1
              then map (cons (t.1, t.2.1)) (paths ts fuel (roll_remaining - t.1))
              else [])
      ts.
Proof. reflexivity. Qed.

Section Characterisation.
Variable self : GameState.
Hypothesis Hwf : wf self.

Lemma recur_helper_traced_paths (fuel : nat) :
  forall (roll_remaining : Z) (path : list Z) (state : GameState)
         (result : list (list Z * GameState)),
  same_shape self state ->
  (Z.to_nat roll_remaining < fuel)%nat ->
  recur_helper_traced self fuel roll_remaining path state result =
  OK (result ++ map (record path state) (paths (tiles self) fuel roll_remaining)).
Proof.
  induction fuel as [|fuel IH]; intros rem path state result Hshape Hfuel;
    [lia|].
  rewrite recur_helper_traced_S, paths_S.
  destruct (Z.eqb_spec rem 0) as [->|Hrem].
  { unfold record. simpl. by rewrite app_nil_r. }
  destruct Hwf as [Hf Hb].
  rewrite for_zip_strict_zip by (rewrite ?length_range_1_13; congruence).
  fold (tiles self).
  assert (Hts : Forall (fun t : Z * (bool * bool) => 1 <= t.1 <= 12) (tiles self)).
  { apply list.Forall_forall. intros t Ht. by apply tiles_elem in Ht as [? _]. }
  revert result Hts. generalize (tiles self) at 1 2 4.
  induction l as [|t ts IHts]; intros result Hts; simpl.
  { by rewrite app_nil_r. }
  apply list.Forall_cons in Hts as [Ht Hts].
  destruct (t.2.1 && t.2.2) eqn:Hcons; simpl.
  { by rewrite IHts. }
  destruct (Z.leb_spec 0 (rem - t.1)) as [Hle|Hgt]; simpl.
  - rewrite (select_tile self state t) by done. simpl.
    rewrite IH by (auto using same_shape_apply_step; lia).
    cbn [res_bind]. rewrite IHts by done. f_equal.
    rewrite map_app, app_assoc. f_equal. f_equal.
    rewrite map_map. apply map_ext. intros p. unfold record. simpl.
    by rewrite <- app_assoc.
  - by rewrite IHts.
Qed.
End Characterisation.

(** Forgetting the ghost paths gives [recur_helper] back, on every state
    and with every fuel. *)
Lemma recur_helper_traced_erase (self : GameState) (fuel : nat) :
  forall (roll_remaining : Z) (path : list Z) (state : GameState)
         (result : list (list Z * GameState)),
  recur_helper self fuel roll_remaining state (map snd result) =
  res_map (map snd)
    (recur_helper_traced self fuel roll_remaining path state result).
Proof.
  induction fuel as [|fuel IH]; intros rem path state result.
  { simpl. destruct (rem =? 0); simpl; [by rewrite map_app|reflexivity]. }
  rewrite recur_helper_S, recur_helper_traced_S.
  destruct (rem =? 0); [simpl; by rewrite map_app|].
  generalize (range 1 13) (_front_row self) (_back_row self).
  intros xs. revert result.
  induction xs as [|x xs IHxs]; intros result [|y ys] [|z zs]; simpl;
    try reflexivity.
  destruct (y && z); simpl; [apply IHxs|].
  destruct (0 <=? rem - x); simpl; [|apply IHxs].
  destruct (if y then set_back state (x - 1) else set_front state (x - 1))
    as [new_state|e]; simpl; [|reflexivity].
  rewrite (IH _ (path ++ [x])).
  destruct (recur_helper_traced self fuel (rem - x) (path ++ [x]) new_state result)
    as [result'|e]; simpl; [apply IHxs|reflexivity].
Qed.

Lemma get_next_states_traced_erase (self : GameState) (roll : Z) :
  get_next_states self roll = res_map (map snd) (get_next_states_traced self roll).
Proof. apply (recur_helper_traced_erase self _ roll [] self []). Qed.

Lemma get_next_states_traced_paths (self : GameState) (roll : Z) :
  wf self ->
  get_next_states_traced self roll =
  OK (map (record [] self) (paths (tiles self) (S (Z.to_nat roll)) roll)).
Proof.
  intros Hwf. unfold get_next_states_traced.
  rewrite recur_helper_traced_paths by (auto using same_shape_refl; lia).
  reflexivity.
Qed.

Lemma get_next_states_paths (self : GameState) (roll : Z) :
  wf self ->
  get_next_states self roll =
  OK (map (run self) (paths (tiles self) (S (Z.to_nat roll)) roll)).
Proof.
  intros Hwf. rewrite get_next_states_traced_erase.
  rewrite get_next_states_traced_paths by done. simpl.
  rewrite map_map. reflexivity.
Qed.

(** ** Rows *)

Lemma row_subset_spec (r r' : list bool) :
  row_subset r r' = true <->
  length r = length r' /\ forall i, r !! i = Some true -> r' !! i = Some true.
Proof.
  unfold row_subset. rewrite andb_true_iff, Nat.eqb_eq.
  split; intros [Hlen H]; split; try done.
  - revert r' Hlen H. induction r as [|b r IH]; intros [|b' r'] Hlen H i Hi;
      simpl in *; try discriminate.
    apply andb_true_iff in H as [Hb H].
    destruct i as [|i]; simpl in *.
    + injection Hi as ->. simpl in Hb. by rewrite Hb.
    + apply (IH r'); auto.
  - revert r' Hlen H. induction r as [|b r IH]; intros [|b' r'] Hlen H;
      simpl in *; try discriminate; [done|].
    apply andb_true_iff. split.
    + destruct b; simpl; [|done].
      specialize (H 0%nat eq_refl). by injection H.
    + apply IH; [lia|]. intros i Hi. apply (H (S i) Hi).
Qed.

Lemma row_subset_refl (r : list bool) : row_subset r r = true.
Proof. apply row_subset_spec. auto. Qed.

Lemma row_subset_trans (r1 r2 r3 : list bool) :
  row_subset r1 r2 = true -> row_subset r2 r3 = true -> row_subset r1 r3 = true.
Proof.
  rewrite !row_subset_spec. intros [Hl1 H1] [Hl2 H2]. split; [congruence|auto].
Qed.

Lemma row_subset_insert (r : list bool) (i : nat) :
  row_subset r (<[i := true]> r) = true.
Proof.
  apply row_subset_spec. split; [by rewrite length_insert|].
  intros j Hj. destruct (decide (i = j)) as [->|Hne].
  - apply list_lookup_insert_eq. by apply lookup_lt_Some in Hj.
  - by rewrite list_lookup_insert_ne.
Qed.

Lemma unflipped_insert_le (r : list bool) (i : nat) :
  (unflipped (<[i := true]> r) <= unflipped r)%nat.
Proof.
  unfold unflipped. revert i. induction r as [|b r IH]; intros [|i]; simpl; try lia.
  - destruct b; simpl; lia.
  - specialize (IH i). destruct b; simpl; lia.
Qed.

Lemma unflipped_insert_lt (r : list bool) (i : nat) :
  r !! i = Some false ->
  (unflipped (<[i := true]> r) < unflipped r)%nat.
Proof.
  unfold unflipped. revert i. induction r as [|b r IH]; intros [|i] Hi;
    simpl in *; try discriminate.
  - injection Hi as ->. simpl. lia.
  - specialize (IH i Hi). destruct b; simpl; lia.
Qed.

Lemma unflipped_le_length (r : list bool) : (unflipped r <= length r)%nat.
Proof.
  unfold unflipped. induction r as [|b r IH]; simpl; [lia|].
  destruct b; simpl; lia.
Qed.

Lemma remaining_le_24 (s : GameState) : wf s -> (remaining s <= 24)%nat.
Proof.
  intros [Hf Hb]. unfold remaining.
  pose proof (unflipped_le_length (_front_row s)).
  pose proof (unflipped_le_length (_back_row s)). lia.
Qed.

(** ** The selections of a path *)

Lemma paths_In (self : GameState) (fuel : nat) :
  forall (roll_remaining : Z) (p : list step),
  In p (paths (tiles self) fuel roll_remaining) ->
  Forall (selectable self) p /\
  (roll_remaining <> 0 -> p <> []) /\
  foldr Z.add 0 (map fst p) = roll_remaining.
Proof.
  induction fuel as [|fuel IH]; intros rem p Hp.
  - simpl in Hp. destruct (Z.eqb_spec rem 0) as [->|]; [|done].
    destruct Hp as [<-|[]]. split_and!; [constructor|done|done].
  - rewrite paths_S in Hp. destruct (Z.eqb_spec rem 0) as [->|Hrem].
    { destruct Hp as [<-|[]]. split_and!; [constructor|done|done]. }
    apply in_flat_map in Hp as (t & Ht & Hp).
    apply list_elem_of_In, tiles_elem in Ht as (Hv & Hf & Hb).
    destruct (t.2.1 && t.2.2) eqn:Hcons; [done|].
    destruct (0 <=? rem - t.1); [|done].
    apply in_map_iff in Hp as (q & <- & Hq).
    apply IH in Hq as (Hsel & _ & Hsum). split_and!.
    + constructor; [|done].
      split; [simpl; lia|]. split; [done|]. simpl.
      intros Hf1. rewrite Hf1 in Hcons. simpl in Hcons. by rewrite Hb, Hcons.
    + done.
    + simpl. lia.
Qed.

(** ** What the selections do to a state *)

Lemma flags_subset_refl (s : GameState) : flags_subset s s = true.
Proof. unfold flags_subset. by rewrite !row_subset_refl. Qed.

Lemma flags_subset_trans (s1 s2 s3 : GameState) :
  flags_subset s1 s2 = true -> flags_subset s2 s3 = true ->
  flags_subset s1 s3 = true.
Proof.
  unfold flags_subset. rewrite !andb_true_iff.
  intros [Hf1 Hb1] [Hf2 Hb2]. eauto using row_subset_trans.
Qed.

Lemma apply_step_subset (state : GameState) (st : step) :
  flags_subset state (apply_step state st) = true.
Proof.
  unfold flags_subset, apply_step.
  destruct st.2; simpl; by rewrite row_subset_insert, row_subset_refl.
Qed.

Lemma run_subset (state : GameState) (p : list step) :
  flags_subset state (run state p) = true.
Proof.
  revert state. induction p as [|st p IH]; intros state; simpl.
  - apply flags_subset_refl.
  - eapply flags_subset_trans; [apply apply_step_subset|apply IH].
Qed.

Lemma apply_step_front_before_back (self state : GameState) (st : step) :
  selectable self st ->
  flags_subset self state = true ->
  front_before_back state = true ->
  front_before_back (apply_step state st) = true.
Proof.
  intros (Hv & Hf & Hb). unfold flags_subset, front_before_back, apply_step.
  rewrite andb_true_iff, !row_subset_spec.
  intros [[Hlf Hsf] _] [Hlen Hinv].
  destruct st.2; simpl; rewrite length_insert; (split; [done|]); intros j Hj.
  - destruct (decide (Z.to_nat (st.1 - 1) = j)) as [<-|Hne].
    + by apply Hsf.
    + rewrite list_lookup_insert_ne in Hj by done. by apply Hinv.
  - apply Hinv in Hj.
    pose proof (row_subset_insert (_front_row state) (Z.to_nat (st.1 - 1))) as Hins.
    apply row_subset_spec in Hins as [_ Hins]. by apply Hins.
Qed.

Lemma run_front_before_back (self : GameState) (p : list step) :
  forall state : GameState,
  Forall (selectable self) p ->
  flags_subset self state = true ->
  front_before_back state = true ->
  front_before_back (run state p) = true.
Proof.
  induction p as [|st p IH]; intros state Hsel Hsub Hinv; simpl; [done|].
  apply list.Forall_cons in Hsel as [Hst Hsel].
  apply IH; [done| |by eapply apply_step_front_before_back].
  eapply flags_subset_trans; [exact Hsub|apply apply_step_subset].
Qed.

Lemma apply_step_remaining_le (state : GameState) (st : step) :
  (remaining (apply_step state st) <= remaining state)%nat.
Proof.
  unfold remaining, apply_step. destruct st.2; simpl.
  - pose proof (unflipped_insert_le (_back_row state) (Z.to_nat (st.1 - 1))). lia.
  - pose proof (unflipped_insert_le (_front_row state) (Z.to_nat (st.1 - 1))). lia.
Qed.

Lemma run_remaining_le (state : GameState) (p : list step) :
  (remaining (run state p) <= remaining state)%nat.
Proof.
  revert state. induction p as [|st p IH]; intros state; simpl; [lia|].
  pose proof (IH (apply_step state st)).
  pose proof (apply_step_remaining_le state st). lia.
Qed.

(** The first selection of a path sets a flag that is not set in [self]. *)
Lemma apply_step_remaining_lt (self : GameState) (st : step) :
  selectable self st ->
  (remaining (apply_step self st) < remaining self)%nat.
Proof.
  intros (Hv & Hf & Hb). unfold remaining, apply_step.
  destruct st.2 eqn:E; simpl.
  - pose proof (unflipped_insert_lt _ _ (Hb eq_refl)). lia.
  - pose proof (unflipped_insert_lt _ _ Hf). lia.
Qed.

Lemma run_remaining_lt (self : GameState) (p : list step) :
  Forall (selectable self) p -> p <> [] ->
  (remaining (run self p) < remaining self)%nat.
Proof.
  destruct p as [|st p]; intros Hsel Hne; [done|]. simpl.
  apply list.Forall_cons in Hsel as [Hst _].
  pose proof (apply_step_remaining_lt self st Hst).
  pose proof (run_remaining_le (apply_step self st) p). lia.
Qed.

Lemma same_shape_wf (self state : GameState) :
  wf self -> same_shape self state -> wf state.
Proof. intros [Hf Hb] [Hsf Hsb]. split; congruence. Qed.

(** Every successor of a well-formed state, all at once. *)
Lemma get_next_states_successors (self : GameState) (roll : Z) :
  wf self ->
  exists next_states : list GameState,
    get_next_states self roll = OK next_states /\
    Forall (fun s' =>
              wf s' /\ flags_subset self s' = true /\
              (front_before_back self = true -> front_before_back s' = true) /\
              (roll <> 0 -> (remaining s' < remaining self)%nat))
           next_states.
Proof.
  intros Hwf. eexists. split; [by apply get_next_states_paths|].
  apply list.Forall_forall. intros s' Hs'.
  apply list_elem_of_In, in_map_iff in Hs' as (p & <- & Hp).
  apply paths_In in Hp as (Hsel & Hne & _). split_and!.
  - eapply same_shape_wf; [done|]. apply same_shape_run, same_shape_refl.
  - apply run_subset.
  - intros Hinv. eapply run_front_before_back; eauto using flags_subset_refl.
  - intros Hroll. apply run_remaining_lt; auto.
Qed.

(** ** The loops of [find_all_games] *)

Lemma AllGamesResult_add_assoc (a b c : AllGamesResult) :
  AllGamesResult_add (AllGamesResult_add a b) c =
  AllGamesResult_add a (AllGamesResult_add b c).
Proof. unfold AllGamesResult_add. simpl. f_equal; lia. Qed.

Lemma AllGamesResult_add_0_r (a : AllGamesResult) :
  AllGamesResult_add a (mkAllGamesResult 0 0) = a.
Proof. destruct a. unfold AllGamesResult_add. simpl. f_equal; lia. Qed.

Lemma AllGamesResult_add_0_l (a : AllGamesResult) :
  AllGamesResult_add (mkAllGamesResult 0 0) a = a.
Proof. destruct a. unfold AllGamesResult_add. simpl. f_equal; lia. Qed.

Lemma foldl_AllGamesResult_add (acc : AllGamesResult) (rs : list AllGamesResult) :
  foldl AllGamesResult_add acc rs = AllGamesResult_add acc (sum_results rs).
Proof.
  unfold sum_results. revert acc.
  induction rs as [|r rs IH]; intros acc; simpl.
  - by rewrite AllGamesResult_add_0_r.
  - rewrite (IH (AllGamesResult_add acc r)), (IH (AllGamesResult_add _ r)).
    by rewrite AllGamesResult_add_0_l, AllGamesResult_add_assoc.
Qed.

(** A loop that adds one result per element. *)
Lemma for_each_add {A : Type} (g : A -> res AllGamesResult) (xs : list A)
    (rs : list AllGamesResult) (acc : AllGamesResult) :
  Forall2 (fun x r => g x = OK r) xs rs ->
  for_each xs (fun x acc => do r <- g x; OK (AllGamesResult_add acc r)) acc =
  OK (AllGamesResult_add acc (sum_results rs)).
Proof.
  intros H. revert acc. induction H as [|x r xs rs Hx _ IH]; intros acc; simpl.
  - by rewrite AllGamesResult_add_0_r.
  - rewrite Hx. simpl. rewrite IH.
    unfold sum_results at 2. simpl.
    by rewrite foldl_AllGamesResult_add, AllGamesResult_add_0_l,
      AllGamesResult_add_assoc.
Qed.

Lemma Forall_OK_Forall2 {A B : Type} (g : A -> res B) (xs : list A) :
  Forall (fun x => exists r, g x = OK r) xs ->
  exists rs, Forall2 (fun x r => g x = OK r) xs rs.
Proof.
  induction 1 as [|x xs [r Hr] _ [rs IH]].
  - exists []. constructor.
  - exists (r :: rs). by constructor.
Qed.

Lemma Forall_OK_Forall2_rel {A B : Type} (R : A -> B -> Prop) (xs : list A) :
  Forall (fun x => exists r, R x r) xs ->
  exists rs, Forall2 R xs rs.
Proof.
  induction 1 as [|x xs [r Hr] _ [rs IH]].
  - exists []. constructor.
  - exists (r :: rs). by constructor.
Qed.

Lemma for_each_mono {A S : Type} (xs : list A) (f g : A -> S -> res S) :
  (forall x st r, f x st = OK r -> g x st = OK r) ->
  forall st r, for_each xs f st = OK r -> for_each xs g st = OK r.
Proof.
  intros Hfg. induction xs as [|x xs IH]; intros st r; simpl; [done|].
  destruct (f x st) as [st'|e] eqn:E; simpl; [|done].
  rewrite (Hfg _ _ _ E). simpl. apply IH.
Qed.

Lemma find_all_games_S (fuel : nat) (state : GameState) :
  find_all_games (S fuel) state =
  if is_won state then OK (mkAllGamesResult 1 0)
  else
    for_each (dice_rolls 6)
      (fun roll result =>
         do next_states <- get_next_states state roll;
         for_each next_states
           (fun next_state result =>
              do r <- find_all_games fuel next_state;
              OK (AllGamesResult_add result r))
           match next_states with
           | [] => AllGamesResult_add result (mkAllGamesResult 0 1)
           | _ => result
           end)
      (mkAllGamesResult 0 0).
Proof. reflexivity. Qed.

(** More fuel does not change a result. *)
Lemma find_all_games_fuel_mono (fuel : nat) :
  forall (fuel' : nat) (state : GameState) (r : AllGamesResult),
  (fuel <= fuel')%nat ->
  find_all_games fuel state = OK r -> find_all_games fuel' state = OK r.
Proof.
  induction fuel as [|fuel IH]; intros fuel' state r Hle H.
  - simpl in H. destruct (is_won state) eqn:Hwon; [|done].
    destruct fuel'; simpl; by rewrite Hwon.
  - destruct fuel' as [|fuel']; [lia|].
    rewrite find_all_games_S in *. destruct (is_won state); [done|].
    revert H. apply for_each_mono. intros roll acc r'.
    destruct (get_next_states state roll) as [next_states|e]; simpl; [|done].
    apply for_each_mono. intros s' acc' r''.
    destruct (find_all_games fuel s') as [x|e] eqn:E; simpl; [|done].
    rewrite (IH fuel' s' x) by (done || lia). done.
Qed.

Lemma dice_rolls_6_positive : Forall (fun roll => 2 <= roll <= 12) (dice_rolls 6).
Proof. repeat constructor; simpl; lia. Qed.

Lemma roll_contribution_body (fuel : nat) (state : GameState) (roll : Z)
    (out acc : AllGamesResult) :
  roll_contribution fuel state roll out ->
  (do next_states <- get_next_states state roll;
   for_each next_states
     (fun next_state result =>
        do r <- find_all_games fuel next_state;
        OK (AllGamesResult_add result r))
     match next_states with
     | [] => AllGamesResult_add acc (mkAllGamesResult 0 1)
     | _ => acc
     end) =
  (do r <- OK out; OK (AllGamesResult_add acc r)).
Proof.
  intros (next_states & -> & H). simpl.
  destruct next_states as [|s' l]; [by subst|].
  destruct H as (rs & Hrs & ->). by apply for_each_add.
Qed.

(** The search returns on every well-formed state, given fuel for the
    flags that are not set yet. *)
Lemma find_all_games_total (fuel : nat) :
  forall state : GameState,
  wf state -> (remaining state < fuel)%nat ->
  exists r, find_all_games fuel state = OK r.
Proof.
  induction fuel as [|fuel IH]; intros state Hwf Hfuel; [lia|].
  rewrite find_all_games_S. destruct (is_won state); [by eexists|].
  assert (Hrolls : Forall (fun roll => exists out, roll_contribution fuel state roll out)
                     (dice_rolls 6)).
  { eapply list.Forall_impl; [apply dice_rolls_6_positive|]. intros roll Hroll. simpl in *.
    destruct (get_next_states_successors state roll Hwf) as (l & Hl & Hsucc).
    assert (Hrs : exists rs, Forall2 (fun s' r => find_all_games fuel s' = OK r) l rs).
    { apply Forall_OK_Forall2. eapply list.Forall_impl; [exact Hsucc|].
      intros s' (Hwf' & _ & _ & Hlt). simpl. apply IH; [done|].
      assert (roll <> 0) as Hne by lia. specialize (Hlt Hne). lia. }
    destruct Hrs as [rs Hrs]. unfold roll_contribution.
    destruct l as [|s' l]; [by eexists _, []|].
    exists (sum_results rs), (s' :: l). eauto. }
  revert Hrolls. generalize (dice_rolls 6) (mkAllGamesResult 0 0).
  intros rolls. induction rolls as [|roll rolls IHr]; intros acc Hrolls; simpl.
  - by eexists.
  - apply list.Forall_cons in Hrolls as [[out Hout] Hrolls].
    rewrite (roll_contribution_body _ _ _ _ _ Hout). simpl. by apply IHr.
Qed.

(** The loop over the rolls, one contribution per roll. *)
Lemma find_all_games_rolls (fuel : nat) (state : GameState) (rolls : list Z)
    (outs : list AllGamesResult) :
  Forall2 (roll_contribution fuel state) rolls outs ->
  forall acc : AllGamesResult,
  for_each rolls
    (fun roll result =>
       do next_states <- get_next_states state roll;
       for_each next_states
         (fun next_state result =>
            do r <- find_all_games fuel next_state;
            OK (AllGamesResult_add result r))
         match next_states with
         | [] => AllGamesResult_add result (mkAllGamesResult 0 1)
         | _ => result
         end)
    acc =
  OK (AllGamesResult_add acc (sum_results outs)).
Proof.
  induction 1 as [|roll out rolls outs Hout _ IH]; intros acc; simpl.
  - by rewrite AllGamesResult_add_0_r.
  - rewrite (roll_contribution_body _ _ _ _ _ Hout). simpl. rewrite IH.
    unfold sum_results at 2. simpl.
    by rewrite foldl_AllGamesResult_add, AllGamesResult_add_0_l,
      AllGamesResult_add_assoc.
Qed.

(** Every roll of the dice has a contribution, given fuel for the
    successors. *)
Lemma roll_contributions_exist (fuel : nat) (state : GameState) :
  wf state -> (remaining state <= fuel)%nat ->
  exists outs, Forall2 (roll_contribution fuel state) (dice_rolls 6) outs.
Proof.
  intros Hwf Hfuel. apply Forall_OK_Forall2_rel.
  eapply list.Forall_impl; [apply dice_rolls_6_positive|].
  intros roll Hroll. simpl in Hroll.
  destruct (get_next_states_successors state roll Hwf) as (l & Hl & Hsucc).
  assert (Hrs : exists rs, Forall2 (fun s' r => find_all_games fuel s' = OK r) l rs).
  { apply Forall_OK_Forall2. eapply list.Forall_impl; [exact Hsucc|].
    intros s' (Hwf' & _ & _ & Hlt). simpl. apply find_all_games_total; [done|].
    assert (roll <> 0) as Hne by lia. specialize (Hlt Hne). lia. }
  destruct Hrs as [rs Hrs]. unfold roll_contribution.
  destruct l as [|s' l]; [by eexists _, []|].
  exists (sum_results rs), (s' :: l). eauto.
Qed.

(** ** The order of the recorded paths *)

Lemma lex_lt_irrefl (p : list Z) : ~ lex_lt p p.
Proof.
  induction p as [|x p IH]; intros H; inversion H; subst; [lia|auto].
Qed.

Lemma StronglySorted_irrefl_NoDup {A : Type} (R : A -> A -> Prop) (l : list A) :
  (forall x, ~ R x x) -> StronglySorted R l -> NoDup l.
Proof.
  intros Hirr. induction 1 as [|x l _ IH Hx]; constructor; [|done].
  intros Hin. rewrite list.Forall_forall in Hx. by apply (Hirr x), Hx.
Qed.

Lemma StronglySorted_map_cons (v : Z) (l : list (list Z)) :
  StronglySorted lex_lt l -> StronglySorted lex_lt (map (cons v) l).
Proof.
  induction 1 as [|p l _ IH Hp]; simpl; constructor; [done|].
  rewrite list.Forall_forall in *. intros q Hq.
  apply list_elem_of_In, in_map_iff in Hq as (q' & <- & Hq').
  apply lex_tail, Hp. by apply list_elem_of_In.
Qed.

Lemma paths_lex_sorted (ts : list (Z * (bool * bool))) (fuel : nat) :
  StronglySorted Z.lt (map fst ts) ->
  forall roll_remaining : Z,
  StronglySorted lex_lt (map (map fst) (paths ts fuel roll_remaining)).
Proof.
  intros Hts. induction fuel as [|fuel IH]; intros rem.
  { simpl. destruct (rem =? 0); repeat constructor. }
  rewrite paths_S. destruct (rem =? 0); [repeat constructor|].
  set (F := fun t : Z * (bool * bool) =>
              if t.2.1 && t.2.2 then []
              else if 0 <=? rem - t.1
                   then map (cons (t.1, t.2.1)) (paths ts fuel (rem - t.1))
                   else []).
  assert (HF : forall t, map (map fst) (F t) =
                         if t.2.1 && t.2.2 then []
                         else if 0 <=? rem - t.1
                              then map (cons t.1) (map (map fst) (paths ts fuel (rem - t.1)))
                              else []).
  { intros t. unfold F. destruct (t.2.1 && t.2.2); [done|].
    destruct (0 <=? rem - t.1); [|done]. by rewrite !map_map. }
  assert (Hhead : forall l q, In q (map (map fst) (flat_map F l)) ->
                              exists t q', In t l /\ q = t.1 :: q').
  { intros l q Hq. apply in_map_iff in Hq as (p & <- & Hp).
    apply in_flat_map in Hp as (t & Ht & Hp). unfold F in Hp.
    destruct (t.2.1 && t.2.2); [done|]. destruct (0 <=? rem - t.1); [|done].
    apply in_map_iff in Hp as (p' & <- & _). by exists t, (map fst p'). }
  clearbody F. revert Hts. generalize ts. intros l.
  induction l as [|t l IHl]; intros Hl; simpl; [constructor|].
  apply StronglySorted_inv in Hl as [Hl Ht].
  rewrite map_app. apply StronglySorted_app_2; [| |by apply IHl].
  - intros q1 q2 Hq1 Hq2.
    apply list_elem_of_In in Hq1. apply list_elem_of_In in Hq2.
    assert (In q1 (map (map fst) (flat_map F [t]))) as Hq1'
      by (simpl; by rewrite app_nil_r).
    apply Hhead in Hq1' as (t1 & q1' & [<-|[]] & ->).
    apply Hhead in Hq2 as (t2 & q2' & Ht2 & ->).
    apply lex_head. rewrite list.Forall_forall in Ht. apply Ht.
    apply list_elem_of_In, in_map. done.
  - rewrite HF. destruct (t.2.1 && t.2.2); [constructor|].
    destruct (0 <=? rem - t.1); [|constructor].
    apply StronglySorted_map_cons, IH.
Qed.

Lemma tiles_values_sorted (self : GameState) :
  wf self -> StronglySorted Z.lt (map fst (tiles self)).
Proof.
  intros [Hf Hb]. unfold tiles.
  change (map fst ?l) with (l.*1). rewrite fst_zip.
  - repeat constructor.
  - rewrite length_zip_with, length_range_1_13. lia.
Qed.

(** ** Fuel *)

(** The fuel of [get_next_states] is enough on every state, well-formed
    or not: any larger fuel gives the same result. *)
Lemma recur_helper_fuel (self : GameState) (fuel1 : nat) :
  forall (fuel2 : nat) (roll_remaining : Z) (state : GameState)
         (result : list GameState),
  (Z.to_nat roll_remaining < fuel1)%nat ->
  (Z.to_nat roll_remaining < fuel2)%nat ->
  recur_helper self fuel1 roll_remaining state result =
  recur_helper self fuel2 roll_remaining state result.
Proof.
  induction fuel1 as [|fuel1 IH]; intros fuel2 rem state result H1 H2; [lia|].
  destruct fuel2 as [|fuel2]; [lia|].
  rewrite !recur_helper_S. destruct (rem =? 0); [done|].
  assert (Hvals : Forall (fun v => 1 <= v) (range 1 13)).
  { apply list.Forall_forall. intros v Hv. apply elem_of_seqZ in Hv. lia. }
  revert result Hvals. generalize (range 1 13) (_front_row self) (_back_row self).
  intros xs. induction xs as [|x xs IHxs]; intros [|y ys] [|z zs] result Hvals;
    simpl; try done.
  apply list.Forall_cons in Hvals as [Hx Hvals].
  destruct (y && z); simpl; [by apply IHxs|].
  destruct (Z.leb_spec 0 (rem - x)); [|by apply IHxs].
  destruct (if y then set_back state (x - 1) else set_front state (x - 1))
    as [new_state|e]; simpl; [|done].
  rewrite (IH fuel2) by lia.
  destruct (recur_helper self fuel2 (rem - x) new_state result); simpl;
    [by apply IHxs|done].
Qed.

Lemma get_next_states_fuel (self : GameState) (roll : Z) (fuel : nat) :
  (Z.to_nat roll < fuel)%nat ->
  recur_helper self fuel roll self [] = get_next_states self roll.
Proof. intros H. apply recur_helper_fuel; lia. Qed.

(** ** States that are not well-formed

    On rows that do not both have twelve flags the loop of [recur_helper]
    ends in the [ValueError] of [zip]: the expansion returns exactly on
    the well-formed states and on a roll of zero, and the search never
    runs out of fuel on any state. *)

Lemma recur_helper_0 (self : GameState) (fuel : nat) (state : GameState)
    (result : list GameState) :
  recur_helper self fuel 0 state result = OK (result ++ [state]).
Proof. destruct fuel; reflexivity. Qed.

Lemma recur_helper_ill_formed (self : GameState) (fuel : nat) :
  ~ wf self ->
  forall (roll_remaining : Z) (state : GameState) (result : list GameState),
  roll_remaining <> 0 -> same_shape self state ->
  (Z.to_nat roll_remaining < fuel)%nat ->
  recur_helper self fuel roll_remaining state result = Raise ValueError.
Proof.
  intros Hnwf. induction fuel as [|fuel IH];
    intros rem state result Hrem [Hsf Hsb] Hfuel; [lia|].
  rewrite recur_helper_S. destruct (Z.eqb_spec rem 0) as [|_]; [done|].
  match goal with
  | |- for_zip_strict _ _ _ ?b _ = _ => set (body := b)
  end.
  assert (Hloop : forall (n k : nat) (ys zs : list bool) (result : list GameState),
            drop k (_front_row self) = ys -> drop k (_back_row self) = zs ->
            ~ (length ys = n /\ length zs = n) ->
            for_zip_strict (seqZ (1 + Z.of_nat k) (Z.of_nat n)) ys zs body result
            = Raise ValueError).
  { clear result. induction n as [|n IHn]; intros k ys zs result Hys Hzs Hlen.
    { destruct ys, zs; simpl; try done. by destruct Hlen. }
    rewrite seqZ_cons by lia.
    replace (Z.pred (Z.of_nat (S n))) with (Z.of_nat n) by lia.
    replace (Z.succ (1 + Z.of_nat k)) with (1 + Z.of_nat (S k)) by lia.
    destruct ys as [|y ys]; [done|]. destruct zs as [|z zs]; [done|].
    assert (Hkf : (k < length (_front_row self))%nat).
    { apply (f_equal length) in Hys. rewrite length_drop in Hys. simpl in Hys. lia. }
    assert (Hkb : (k < length (_back_row self))%nat).
    { apply (f_equal length) in Hzs. rewrite length_drop in Hzs. simpl in Hzs. lia. }
    assert (Hnext : forall result,
              for_zip_strict (seqZ (1 + Z.of_nat (S k)) (Z.of_nat n)) ys zs
                body result = Raise ValueError).
    { intros result'. apply IHn.
      - replace (S k) with (k + 1)%nat by lia. by rewrite <- drop_drop, Hys.
      - replace (S k) with (k + 1)%nat by lia. by rewrite <- drop_drop, Hzs.
      - simpl in Hlen. lia. }
    cbn [for_zip_strict]. unfold body at 1.
    destruct (y && z); [apply Hnext|].
    destruct (Z.leb_spec 0 (rem - (1 + Z.of_nat k))); [|apply Hnext].
    assert (Hsel : (if y then set_back state (1 + Z.of_nat k - 1)
                    else set_front state (1 + Z.of_nat k - 1)) =
                   OK (apply_step state (1 + Z.of_nat k, y))).
    { unfold set_back, set_front, apply_step. simpl.
      destruct y; rewrite list_assign_in_range by lia; reflexivity. }
    rewrite Hsel. cbn [res_bind].
    destruct (Z.eq_dec (rem - (1 + Z.of_nat k)) 0) as [->|Hne].
    - rewrite recur_helper_0. cbn [res_bind]. apply Hnext.
    - rewrite IH; [done|done| |lia].
      apply same_shape_apply_step. by split. }
  apply (Hloop 12%nat 0%nat); [done|done|].
  intros [H1 H2]. by apply Hnwf.
Qed.

Lemma get_next_states_ill_formed (self : GameState) (roll : Z) :
  ~ wf self -> roll <> 0 -> get_next_states self roll = Raise ValueError.
Proof.
  intros Hnwf Hroll. apply recur_helper_ill_formed;
    auto using same_shape_refl; lia.
Qed.

(** The expansion returns exactly on the well-formed states and on a
    roll of zero. *)
Lemma get_next_states_returns_iff (self : GameState) (roll : Z) :
  (exists next_states, get_next_states self roll = OK next_states) <->
  wf self \/ roll = 0.
Proof.
  split.
  - intros [l Hl]. destruct (Z.eq_dec roll 0) as [|Hroll]; [by right|left].
    destruct (decide (length (_front_row self) = 12%nat /\
                      length (_back_row self) = 12%nat)) as [|Hnwf]; [done|].
    rewrite get_next_states_ill_formed in Hl by done. discriminate.
  - intros [Hwf| ->]; [|by eexists].
    eexists. by apply get_next_states_paths.
Qed.

(** With fuel for 24 flags the search never reports a lack of fuel: it
    returns on a well-formed state, and on any other state it returns
    when the state counts as won and raises [ValueError] otherwise. *)
Lemma find_all_games_never_out_of_fuel (state : GameState) (fuel : nat) :
  (24 < fuel)%nat -> find_all_games fuel state <> Raise OutOfFuel.
Proof.
  intros Hfuel.
  destruct (decide (length (_front_row state) = 12%nat /\
                    length (_back_row state) = 12%nat)) as [Hwf|Hnwf].
  - destruct (find_all_games_total fuel state Hwf) as [r ->]; [|done].
    pose proof (remaining_le_24 state Hwf). lia.
  - destruct fuel as [|fuel]; [lia|]. rewrite find_all_games_S.
    destruct (is_won state); [done|].
    change (dice_rolls 6) with (2 :: tl (dice_rolls 6)). cbn [for_each].
    rewrite get_next_states_ill_formed by done. done.
Qed.

(** ** Concrete boards *)

Example board_init : board [] [] = GameState_init.
Proof. reflexivity. Qed.

Example get_next_states_init_1 :
  get_next_states GameState_init 1 = OK [board [1] []].
Proof. reflexivity. Qed.

Example get_next_states_init_2 :
  get_next_states GameState_init 2 = OK [board [1] []; board [2] []].
Proof. reflexivity. Qed.

(** One successor per sequence of tile values from 1..12 that sums to 13:
    on the starting state no flag tested by the loop ever changes. *)
Example get_next_states_init_13_length :
  res_map length (get_next_states GameState_init 13) = OK 4095%nat.
Proof. vm_compute. reflexivity. Qed.

Example get_next_states_last_tile :
  get_next_states (board [1;2;3;4;5;6;7;8;9;10;11;12] [1;2;3;4;5;6;7;8;9;10;11]) 12
  = OK [board [1;2;3;4;5;6;7;8;9;10;11;12] [1;2;3;4;5;6;7;8;9;10;11;12]].
Proof. reflexivity. Qed.


(** ** The meaning of the predicates on well-formed states *)

Lemma flags_subset_spec (s s' : GameState) :
  wf s -> wf s' ->
  flags_subset s s' = true <->
  forall i,
    (_front_row s !! i = Some true -> _front_row s' !! i = Some true) /\
    (_back_row s !! i = Some true -> _back_row s' !! i = Some true).
Proof.
  intros [Hf Hb] [Hf' Hb']. unfold flags_subset.
  rewrite andb_true_iff, !row_subset_spec. split.
  - intros [[_ H1] [_ H2]] i. auto.
  - intros H. split; (split; [congruence|]); intros i; apply H.
Qed.

Lemma front_before_back_spec (s : GameState) :
  wf s ->
  front_before_back s = true <->
  forall i, _back_row s !! i = Some true -> _front_row s !! i = Some true.
Proof.
  intros [Hf Hb]. unfold front_before_back. rewrite row_subset_spec.
  split; [by intros [_ H]|]. intros H. split; [congruence|done].
Qed.

(** * The expansion *)

(** C1.  On the starting state a roll of 2 records the path that selects
    tile 1 twice, and its successor has the front flag of tile 1 set and
    no back flag: the second selection sets the front flag again.  A roll
    of 3 records the path that selects tile 1 three times. *)
Theorem expansion_reselects_tile :
  get_next_states_traced GameState_init 2 =
    OK [([1; 1], board [1] []); ([2], board [2] [])] /\
  get_next_states_traced GameState_init 3 =
    OK [([1; 1; 1], board [1] []); ([1; 2], board [1; 2] []);
        ([2; 1], board [1; 2] []); ([3], board [3] [])] /\
  selections 1 [1; 1; 1] = 3%nat /\
  get_next_states GameState_init 2 = OK [board [1] []; board [2] []].
Proof. split_and!; reflexivity. Qed.

(** C2, as stated, fails: on the starting state a roll of 3 records both
    the path 1, 2 and the path 2, 1. *)
Lemma recorded_paths_repeat_combination :
  exists recorded : list (list Z * GameState),
    get_next_states_traced GameState_init 3 = OK recorded /\
    ~ distinct_combinations (map fst recorded).
Proof.
  eexists. split; [reflexivity|]. intros H.
  apply (H 1%nat 2%nat [1; 2] [2; 1]); [done|reflexivity|reflexivity|].
  apply perm_swap.
Qed.

(** C2, amended.  Within one call of the expansion every level of the
    recursion runs over the tile values 1..12 in increasing order, so the
    recorded selection paths come in strictly increasing lexicographic
    order and no two of them are the same sequence of tile values. *)
Theorem recorded_paths_distinct_sequences (self : GameState) (roll : Z) :
  wf self ->
  exists recorded : list (list Z * GameState),
    get_next_states_traced self roll = OK recorded /\
    StronglySorted lex_lt (map fst recorded) /\
    NoDup (map fst recorded).
Proof.
  intros Hwf. eexists. split; [by apply get_next_states_traced_paths|].
  assert (Hsorted : StronglySorted lex_lt
            (map fst (map (record [] self)
                        (paths (tiles self) (S (Z.to_nat roll)) roll)))).
  { rewrite map_map.
    change (StronglySorted lex_lt
              (map (map fst) (paths (tiles self) (S (Z.to_nat roll)) roll))).
    apply paths_lex_sorted, tiles_values_sorted, Hwf. }
  split; [done|].
  eapply StronglySorted_irrefl_NoDup; [apply lex_lt_irrefl|done].
Qed.

Lemma recorded_paths_distinct_sequences_witness :
  wf (board [1; 2] [1]) /\
  exists recorded : list (list Z * GameState),
    get_next_states_traced (board [1; 2] [1]) 5 = OK recorded /\
    StronglySorted lex_lt (map fst recorded) /\
    NoDup (map fst recorded).
Proof.
  split; [split; reflexivity|].
  apply (recorded_paths_distinct_sequences (board [1; 2] [1]) 5).
  split; reflexivity.
Defined.

(** C3, as stated, fails: the expansion of the starting state with a
    roll of 13 is not empty. *)
Lemma expand_init_13_not_empty :
  get_next_states GameState_init 13 <> OK [].
Proof.
  rewrite get_next_states_paths by (split; reflexivity).
  vm_compute. discriminate.
Qed.

(** C3, amended.  The expansion of the starting state with a roll of 13
    returns a non-empty list of successors; among them is the state in
    which the front flags of the tiles 1 and 12 are set and nothing else. *)
Theorem expand_init_13_nonempty :
  exists next_states : list GameState,
    get_next_states GameState_init 13 = OK next_states /\
    next_states <> [] /\
    board [1; 12] [] ∈ next_states.
Proof.
  eexists. split; [apply get_next_states_paths; split; reflexivity|]. split.
  - vm_compute. discriminate.
  - apply list_elem_of_In, in_map_iff. exists [(1, false); (12, false)].
    split; [reflexivity|]. apply list_elem_of_In, list_elem_of_lookup.
    exists 2047%nat. vm_compute. reflexivity.
Qed.

(** C5.  The successors of a state in which no back flag is set without
    its front flag have that property too. *)
Theorem get_next_states_front_before_back (self : GameState) (roll : Z) :
  wf self -> front_before_back self = true ->
  exists next_states : list GameState,
    get_next_states self roll = OK next_states /\
    Forall (fun s' => front_before_back s' = true) next_states.
Proof.
  intros Hwf Hinv.
  destruct (get_next_states_successors self roll Hwf) as (l & Hl & Hsucc).
  exists l. split; [done|].
  eapply list.Forall_impl; [exact Hsucc|]. intros s' (_ & _ & H & _). by apply H.
Qed.

Lemma get_next_states_front_before_back_witness :
  wf (board [1; 2; 5] [2]) /\ front_before_back (board [1; 2; 5] [2]) = true /\
  exists next_states : list GameState,
    get_next_states (board [1; 2; 5] [2]) 4 = OK next_states /\
    Forall (fun s' => front_before_back s' = true) next_states.
Proof.
  split; [split; reflexivity|]. split; [reflexivity|].
  apply (get_next_states_front_before_back (board [1; 2; 5] [2]) 4);
    [split; reflexivity|reflexivity].
Defined.

(** C6.  Every flag that is set in a state is set in each of its
    successors, whatever the roll. *)
Theorem get_next_states_monotone (self : GameState) (roll : Z) :
  wf self ->
  exists next_states : list GameState,
    get_next_states self roll = OK next_states /\
    Forall (fun s' => flags_subset self s' = true) next_states.
Proof.
  intros Hwf.
  destruct (get_next_states_successors self roll Hwf) as (l & Hl & Hsucc).
  exists l. split; [done|].
  eapply list.Forall_impl; [exact Hsucc|]. by intros s' (_ & H & _).
Qed.

Lemma get_next_states_monotone_witness :
  wf (board [1; 2; 5] [2]) /\
  exists next_states : list GameState,
    get_next_states (board [1; 2; 5] [2]) 7 = OK next_states /\
    Forall (fun s' => flags_subset (board [1; 2; 5] [2]) s' = true) next_states.
Proof.
  split; [split; reflexivity|].
  apply (get_next_states_monotone (board [1; 2; 5] [2]) 7). split; reflexivity.
Defined.

(** C10.  With a roll of zero the expansion records the state it is
    called on, unchanged and with no tile selected, and nothing else;
    this holds for every state. *)
Theorem get_next_states_roll_0 (self : GameState) :
  get_next_states self 0 = OK [self] /\
  get_next_states_traced self 0 = OK [([], self)].
Proof. split; reflexivity. Qed.

(** * The search *)

(** C8.  On a won state the search returns one win and no loss, and it
    does so before the loop over the rolls: no fuel at all is needed. *)
Theorem find_all_games_won (state : GameState) (fuel : nat) :
  is_won state = true ->
  find_all_games fuel state = OK (mkAllGamesResult 1 0).
Proof. intros Hwon. destruct fuel; simpl; by rewrite Hwon. Qed.

Lemma find_all_games_won_witness :
  is_won (board [1;2;3;4;5;6;7;8;9;10;11;12] [1;2;3;4;5;6;7;8;9;10;11;12]) = true /\
  find_all_games 0 (board [1;2;3;4;5;6;7;8;9;10;11;12] [1;2;3;4;5;6;7;8;9;10;11;12])
  = OK (mkAllGamesResult 1 0).
Proof.
  split; [reflexivity|].
  apply (find_all_games_won
           (board [1;2;3;4;5;6;7;8;9;10;11;12] [1;2;3;4;5;6;7;8;9;10;11;12]) 0).
  reflexivity.
Defined.

(** C9.  The addition of results is associative and commutative, and
    [AllGamesResult(0, 0)] is neutral on both sides. *)
Theorem AllGamesResult_add_monoid (a b c : AllGamesResult) :
  AllGamesResult_add (AllGamesResult_add a b) c =
    AllGamesResult_add a (AllGamesResult_add b c) /\
  AllGamesResult_add a b = AllGamesResult_add b a /\
  AllGamesResult_add a (mkAllGamesResult 0 0) = a /\
  AllGamesResult_add (mkAllGamesResult 0 0) a = a.
Proof.
  split_and!.
  - apply AllGamesResult_add_assoc.
  - unfold AllGamesResult_add. f_equal; lia.
  - apply AllGamesResult_add_0_r.
  - apply AllGamesResult_add_0_l.
Qed.

(** C4.  [dice_rolls 6] lists the 36 ordered outcomes of two dice, the
    outcome (a, b) at position 6 (a - 1) + (b - 1) with the total a + b.
    On a state that is not won the search adds, for each of them in turn,
    one loss when the expansion for the total is empty and otherwise the
    results of the search on every successor. *)
Theorem find_all_games_36_outcomes (fuel : nat) (state : GameState) :
  wf state -> is_won state = false -> (remaining state <= fuel)%nat ->
  (length (dice_rolls 6) = 36%nat /\
   forall a b : Z, 1 <= a <= 6 -> 1 <= b <= 6 ->
     dice_rolls 6 !! Z.to_nat (6 * (a - 1) + (b - 1)) = Some (a + b)) /\
  exists outs : list AllGamesResult,
    Forall2 (roll_contribution fuel state) (dice_rolls 6) outs /\
    find_all_games (S fuel) state = OK (sum_results outs).
Proof.
  intros Hwf Hwon Hfuel. split.
  - split; [reflexivity|]. intros a b Ha Hb.
    assert (a = 1 \/ a = 2 \/ a = 3 \/ a = 4 \/ a = 5 \/ a = 6) as Ha' by lia.
    assert (b = 1 \/ b = 2 \/ b = 3 \/ b = 4 \/ b = 5 \/ b = 6) as Hb' by lia.
    destruct Ha' as [->|[->|[->|[->|[->| ->]]]]];
      destruct Hb' as [->|[->|[->|[->|[->| ->]]]]]; reflexivity.
  - destruct (roll_contributions_exist fuel state Hwf Hfuel) as [outs Houts].
    exists outs. split; [done|].
    rewrite find_all_games_S, Hwon.
    rewrite (find_all_games_rolls _ _ _ _ Houts).
    by rewrite AllGamesResult_add_0_l.
Qed.

Lemma find_all_games_36_outcomes_witness :
  wf GameState_init /\ is_won GameState_init = false /\
  (remaining GameState_init <= 24)%nat /\
  (length (dice_rolls 6) = 36%nat /\
   forall a b : Z, 1 <= a <= 6 -> 1 <= b <= 6 ->
     dice_rolls 6 !! Z.to_nat (6 * (a - 1) + (b - 1)) = Some (a + b)) /\
  exists outs : list AllGamesResult,
    Forall2 (roll_contribution 24 GameState_init) (dice_rolls 6) outs /\
    find_all_games 25 GameState_init = OK (sum_results outs).
Proof.
  split; [split; reflexivity|]. split; [reflexivity|].
  split; [vm_compute; lia|].
  apply (find_all_games_36_outcomes 24 GameState_init);
    [split; reflexivity|reflexivity|vm_compute; lia].
Defined.

(** C7.  A state has at most 24 flags that are not set; every successor
    for a roll other than zero has strictly fewer of them; hence the
    search returns on every state, with the same result for every fuel
    above the number of the flags that are not set. *)
Theorem find_all_games_terminates (state : GameState) :
  wf state ->
  (remaining state <= 24)%nat /\
  (forall roll : Z, roll <> 0 ->
     exists next_states : list GameState,
       get_next_states state roll = OK next_states /\
       Forall (fun s' => wf s' /\ (remaining s' < remaining state)%nat)
              next_states) /\
  exists r : AllGamesResult,
    forall fuel : nat, (remaining state < fuel)%nat ->
      find_all_games fuel state = OK r.
Proof.
  intros Hwf. split_and!.
  - by apply remaining_le_24.
  - intros roll Hroll.
    destruct (get_next_states_successors state roll Hwf) as (l & Hl & Hsucc).
    exists l. split; [done|].
    eapply list.Forall_impl; [exact Hsucc|]. intros s' (Hwf' & _ & _ & Hlt). auto.
  - destruct (find_all_games_total (S (remaining state)) state Hwf) as [r Hr];
      [lia|].
    exists r. intros fuel Hfuel.
    apply (find_all_games_fuel_mono (S (remaining state))); [lia|done].
Qed.

Lemma find_all_games_terminates_witness :
  wf GameState_init /\
  (remaining GameState_init <= 24)%nat /\
  (forall roll : Z, roll <> 0 ->
     exists next_states : list GameState,
       get_next_states GameState_init roll = OK next_states /\
       Forall (fun s' => wf s' /\ (remaining s' < remaining GameState_init)%nat)
              next_states) /\
  exists r : AllGamesResult,
    forall fuel : nat, (remaining GameState_init < fuel)%nat ->
      find_all_games fuel GameState_init = OK r.
Proof.
  split; [split; reflexivity|].
  apply (find_all_games_terminates GameState_init). split; reflexivity.
Defined.

(** * Further properties of the expansion *)

Lemma tiles_lookup_Some (self : GameState) (i : nat) (f b : bool) :
  (i < 12)%nat ->
  _front_row self !! i = Some f -> _back_row self !! i = Some b ->
  tiles self !! i = Some (Z.of_nat i + 1, (f, b)).
Proof.
  intros Hi Hf Hb. unfold tiles, range.
  apply lookup_zip_with_Some. exists (Z.of_nat i + 1), (f, b).
  split_and!; [done| |].
  - apply lookup_seqZ. lia.
  - apply lookup_zip_with_Some. by exists f, b.
Qed.

Lemma open_tile_tiles (self : GameState) (val : Z) :
  open_tile self val = true ->
  exists f b, In (val, (f, b)) (tiles self) /\ f && b = false /\ 1 <= val <= 12.
Proof.
  unfold open_tile. rewrite !andb_true_iff. intros [[H1 H2] H].
  apply Z.leb_le in H1. apply Z.leb_le in H2.
  destruct (_front_row self !! Z.to_nat (val - 1)) as [f|] eqn:Hf; [|done].
  destruct (_back_row self !! Z.to_nat (val - 1)) as [b|] eqn:Hb; [|done].
  exists f, b. split_and!; try lia.
  - apply list_elem_of_In, list_elem_of_lookup. exists (Z.to_nat (val - 1)).
    rewrite (tiles_lookup_Some self _ f b) by (done || lia).
    do 2 f_equal. lia.
  - by apply negb_true_iff.
Qed.

Lemma selectable_open_tile (self : GameState) (st : step) :
  wf self -> selectable self st -> open_tile self st.1 = true.
Proof.
  intros [Hlf Hlb] (Hv & Hf & Hb). unfold open_tile.
  destruct (Z.leb_spec 1 st.1); [|lia]. destruct (Z.leb_spec st.1 12); [|lia].
  rewrite Hf. simpl.
  destruct (lookup_lt_is_Some_2 (_back_row self) (Z.to_nat (st.1 - 1)))
    as [b Hb']; [lia|].
  rewrite Hb'. destruct st.2; [|done].
  rewrite Hb in Hb' by done. by injection Hb' as <-.
Qed.

Lemma path_sum_open_nonneg (self : GameState) (p : list Z) :
  forallb (open_tile self) p = true -> 0 <= path_sum p.
Proof.
  induction p as [|v p IH]; simpl; [lia|].
  rewrite andb_true_iff. intros [Hv Hp].
  apply open_tile_tiles in Hv as (_ & _ & _ & _ & Hv). specialize (IH Hp).
  unfold path_sum in *. lia.
Qed.

(** Every sequence of open tiles that sums to the remaining roll is
    followed by [recur_helper]. *)
Lemma paths_complete (self : GameState) (p : list Z) :
  forall (fuel : nat) (roll_remaining : Z),
  forallb (open_tile self) p = true ->
  path_sum p = roll_remaining ->
  (Z.to_nat roll_remaining < fuel)%nat ->
  exists q, In q (paths (tiles self) fuel roll_remaining) /\ map fst q = p.
Proof.
  induction p as [|v p IH]; intros fuel rem Hopen Hsum Hfuel.
  - exists []. split; [|done]. simpl in Hsum. subst rem.
    destruct fuel; simpl; auto.
  - simpl in Hopen. apply andb_true_iff in Hopen as [Hv Hp].
    pose proof (path_sum_open_nonneg self p Hp) as Hnn.
    apply open_tile_tiles in Hv as (f & b & Ht & Hfb & Hv).
    simpl in Hsum. fold (path_sum p) in Hsum.
    destruct fuel as [|fuel]; [lia|].
    destruct (IH fuel (rem - v) Hp) as (q & Hq & Hqp); [lia|lia|].
    exists ((v, f) :: q). split; [|simpl; by rewrite Hqp].
    rewrite paths_S. destruct (Z.eqb_spec rem 0); [lia|].
    apply in_flat_map. exists (v, (f, b)). split; [done|]. simpl.
    rewrite Hfb. destruct (Z.leb_spec 0 (rem - v)); [|lia].
    by apply in_map.
Qed.

(** X1.  The paths the expansion of a well-formed state records are
    exactly the sequences of tile values that sum to the roll and whose
    tiles are open in the state the expansion is called on. *)
Theorem recorded_paths_exactly (self : GameState) (roll : Z) :
  wf self ->
  exists recorded : list (list Z * GameState),
    get_next_states_traced self roll = OK recorded /\
    forall p : list Z,
      In p (map fst recorded) <->
      forallb (open_tile self) p = true /\ path_sum p = roll.
Proof.
  intros Hwf. eexists. split; [by apply get_next_states_traced_paths|].
  intros p. rewrite map_map.
  change (In p (map (map fst) (paths (tiles self) (S (Z.to_nat roll)) roll)) <->
          forallb (open_tile self) p = true /\ path_sum p = roll).
  split.
  - intros (q & <- & Hq)%in_map_iff.
    apply paths_In in Hq as (Hsel & _ & Hsum). split; [|done].
    clear Hsum. induction Hsel as [|st q Hst _ IH]; simpl; [done|].
    by rewrite (selectable_open_tile self st Hwf Hst), IH.
  - intros [Hopen Hsum].
    destruct (paths_complete self p (S (Z.to_nat roll)) roll) as (q & Hq & <-);
      [done|done|lia|].
    by apply in_map.
Qed.

Lemma recorded_paths_exactly_witness :
  wf (board [1; 2] [1]) /\
  exists recorded : list (list Z * GameState),
    get_next_states_traced (board [1; 2] [1]) 5 = OK recorded /\
    forall p : list Z,
      In p (map fst recorded) <->
      forallb (open_tile (board [1; 2] [1])) p = true /\ path_sum p = 5.
Proof.
  split; [split; reflexivity|].
  apply (recorded_paths_exactly (board [1; 2] [1]) 5). split; reflexivity.
Defined.

Lemma insert_true_lookup (l : list bool) (j i : nat) :
  <[j := true]> l !! i = (fun b => b || (j =? i)%nat) <$> l !! i.
Proof.
  destruct (decide (j = i)) as [->|Hne].
  - rewrite Nat.eqb_refl. destruct (l !! i) as [b|] eqn:Hi; simpl.
    + rewrite list_lookup_insert_eq by (by eapply lookup_lt_Some).
      by rewrite orb_true_r.
    + rewrite list_insert_ge by (by apply lookup_ge_None). by rewrite Hi.
  - rewrite list_lookup_insert_ne by done.
    apply Nat.eqb_neq in Hne. rewrite Hne.
    destruct (l !! i); simpl; by rewrite ?orb_false_r.
Qed.

Lemma run_lookup_front (p : list step) (i : nat) :
  forall state : GameState,
  _front_row (run state p) !! i =
  (fun b => b || existsb (fun st => negb st.2 && hits i st) p)
    <$> _front_row state !! i.
Proof.
  induction p as [|st p IH]; intros state; simpl.
  - destruct (_front_row state !! i); simpl; by rewrite ?orb_false_r.
  - rewrite IH. unfold apply_step, hits. destruct st.2; simpl.
    + done.
    + rewrite insert_true_lookup.
      destruct (_front_row state !! i); simpl; by rewrite ?orb_assoc.
Qed.

Lemma run_lookup_back (p : list step) (i : nat) :
  forall state : GameState,
  _back_row (run state p) !! i =
  (fun b => b || existsb (fun st => st.2 && hits i st) p)
    <$> _back_row state !! i.
Proof.
  induction p as [|st p IH]; intros state; simpl.
  - destruct (_back_row state !! i); simpl; by rewrite ?orb_false_r.
  - rewrite IH. unfold apply_step, hits. destruct st.2; simpl.
    + rewrite insert_true_lookup.
      destruct (_back_row state !! i); simpl; by rewrite ?orb_assoc.
    + done.
Qed.

(** On a path of selections of [self], the selections of the tile at
    index [i] all carry the front flag of that tile in [self]. *)
Lemma selectable_hits (self : GameState) (p : list step) (i : nat) (f : bool) :
  Forall (selectable self) p ->
  _front_row self !! i = Some f ->
  existsb (fun st => negb st.2 && hits i st) p =
    negb f && existsb (Z.eqb (Z.of_nat i + 1)) (map fst p) /\
  existsb (fun st => st.2 && hits i st) p =
    f && existsb (Z.eqb (Z.of_nat i + 1)) (map fst p).
Proof.
  intros Hsel Hf. induction Hsel as [|st p (Hv & Hst & _) _ [IH1 IH2]]; simpl.
  { by rewrite !andb_false_r. }
  rewrite IH1, IH2, !andb_orb_distrib_r. unfold hits.
  destruct (Nat.eqb_spec (Z.to_nat (st.1 - 1)) i) as [Hi|Hi].
  - subst i. rewrite Hst in Hf. injection Hf as ->.
    replace (Z.of_nat (Z.to_nat (st.1 - 1)) + 1) with st.1 by lia.
    by rewrite Z.eqb_refl, !andb_true_r.
  - destruct (Z.eqb_spec (Z.of_nat i + 1) st.1) as [He|He]; [lia|].
    by rewrite !andb_false_r.
Qed.

(** X2.  The successor recorded for a path is determined by the state the
    expansion is called on and by the tiles the path selects: a tile the
    path does not select keeps its flags; a tile it selects has its front
    flag set, and its back flag set as well exactly when its front flag
    was set before the expansion, however often the path selects it. *)
Theorem successor_flags (self : GameState) (roll : Z) :
  wf self ->
  exists recorded : list (list Z * GameState),
    get_next_states_traced self roll = OK recorded /\
    Forall (fun pr : list Z * GameState =>
              forall (i : nat) (f b : bool),
                _front_row self !! i = Some f ->
                _back_row self !! i = Some b ->
                _front_row pr.2 !! i =
                  Some (f || existsb (Z.eqb (Z.of_nat i + 1)) pr.1) /\
                _back_row pr.2 !! i =
                  Some (b || (f && existsb (Z.eqb (Z.of_nat i + 1)) pr.1)))
           recorded.
Proof.
  intros Hwf. eexists. split; [by apply get_next_states_traced_paths|].
  apply list.Forall_forall. intros pr Hpr.
  apply list_elem_of_In, in_map_iff in Hpr as (q & <- & Hq).
  apply paths_In in Hq as (Hsel & _ & _).
  intros i f b Hf Hb. unfold record. simpl.
  destruct (selectable_hits self q i f Hsel Hf) as [H1 H2].
  rewrite run_lookup_front, run_lookup_back, Hf, Hb. simpl.
  by rewrite H1, H2, orb_andb_distrib_r, orb_negb_r.
Qed.

Lemma successor_flags_witness :
  wf (board [1; 2] [1]) /\
  exists recorded : list (list Z * GameState),
    get_next_states_traced (board [1; 2] [1]) 5 = OK recorded /\
    Forall (fun pr : list Z * GameState =>
              forall (i : nat) (f b : bool),
                _front_row (board [1; 2] [1]) !! i = Some f ->
                _back_row (board [1; 2] [1]) !! i = Some b ->
                _front_row pr.2 !! i =
                  Some (f || existsb (Z.eqb (Z.of_nat i + 1)) pr.1) /\
                _back_row pr.2 !! i =
                  Some (b || (f && existsb (Z.eqb (Z.of_nat i + 1)) pr.1)))
           recorded.
Proof.
  split; [split; reflexivity|].
  apply (successor_flags (board [1; 2] [1]) 5). split; reflexivity.
Defined.

(** No tile of the loop fits: nothing is recorded. *)
Lemma paths_nil (ts : list (Z * (bool * bool))) (fuel : nat) (roll_remaining : Z) :
  roll_remaining <> 0 ->
  (forall t, In t ts -> t.2.1 && t.2.2 = true \/ roll_remaining < t.1) ->
  paths ts fuel roll_remaining = [].
Proof.
  intros Hrem Hts. destruct fuel as [|fuel].
  { simpl. by destruct (Z.eqb_spec roll_remaining 0). }
  rewrite paths_S. destruct (Z.eqb_spec roll_remaining 0); [done|].
  generalize (paths ts fuel). intros rec.
  induction ts as [|t ts IH]; simpl; [done|].
  rewrite IH by (intros t' Ht'; apply Hts; by right).
  destruct (Hts t) as [->| Hlt]; [by left|done|].
  destruct (t.2.1 && t.2.2); [done|].
  by destruct (Z.leb_spec 0 (roll_remaining - t.1)); [lia|].
Qed.

(** X3.  A negative roll expands to the empty list on every well-formed
    state: no error is raised and nothing is recorded. *)
Theorem get_next_states_negative_roll (self : GameState) (roll : Z) :
  wf self -> roll < 0 -> get_next_states self roll = OK [].
Proof.
  intros Hwf Hroll. rewrite get_next_states_paths by done.
  rewrite paths_nil; [done|lia|].
  intros t Ht. right. apply list_elem_of_In, tiles_elem in Ht as [Hv _]. lia.
Qed.

Lemma get_next_states_negative_roll_witness :
  wf GameState_init /\ -3 < 0 /\ get_next_states GameState_init (-3) = OK [].
Proof.
  split; [split; reflexivity|]. split; [lia|].
  apply (get_next_states_negative_roll GameState_init (-3));
    [split; reflexivity|lia].
Defined.

(** X4.  A won state has no successor: for every roll other than zero
    its expansion is the empty list. *)
Theorem get_next_states_won (self : GameState) (roll : Z) :
  wf self -> is_won self = true -> roll <> 0 ->
  get_next_states self roll = OK [].
Proof.
  intros Hwf Hwon Hroll. rewrite get_next_states_paths by done.
  rewrite paths_nil; [done|done|].
  intros t Ht. left. apply list_elem_of_In, tiles_elem in Ht as (_ & Hf & Hb).
  unfold is_won, all in Hwon. apply andb_true_iff in Hwon as [Hfront Hback].
  rewrite forallb_forall in Hfront, Hback.
  rewrite (Hfront t.2.1), (Hback t.2.2); [done| |];
    by eapply list_elem_of_In, list_elem_of_lookup_2.
Qed.

Lemma get_next_states_won_witness :
  wf (board [1;2;3;4;5;6;7;8;9;10;11;12] [1;2;3;4;5;6;7;8;9;10;11;12]) /\
  is_won (board [1;2;3;4;5;6;7;8;9;10;11;12] [1;2;3;4;5;6;7;8;9;10;11;12]) = true /\
  7 <> 0 /\
  get_next_states
    (board [1;2;3;4;5;6;7;8;9;10;11;12] [1;2;3;4;5;6;7;8;9;10;11;12]) 7 = OK [].
Proof.
  split; [split; reflexivity|]. split; [reflexivity|]. split; [lia|].
  apply (get_next_states_won
           (board [1;2;3;4;5;6;7;8;9;10;11;12] [1;2;3;4;5;6;7;8;9;10;11;12]) 7);
    [split; reflexivity|reflexivity|lia].
Defined.


(** X6.  On a state that does not count as won and has a row without
    twelve flags the search raises [ValueError], at the first roll. *)
Theorem find_all_games_ill_formed (fuel : nat) (state : GameState) :
  ~ wf state -> is_won state = false ->
  find_all_games (S fuel) state = Raise ValueError.
Proof.
  intros Hnwf Hwon. rewrite find_all_games_S, Hwon.
  change (dice_rolls 6) with (2 :: tl (dice_rolls 6)). cbn [for_each].
  by rewrite get_next_states_ill_formed.
Qed.

Lemma find_all_games_ill_formed_witness :
  ~ wf (mkGameState (replicate 11 false) (replicate 12 false)) /\
  is_won (mkGameState (replicate 11 false) (replicate 12 false)) = false /\
  find_all_games 1 (mkGameState (replicate 11 false) (replicate 12 false))
  = Raise ValueError.
Proof.
  assert (Hnwf : ~ wf (mkGameState (replicate 11 false) (replicate 12 false))).
  { intros [H _]. vm_compute in H. lia. }
  split; [exact Hnwf|]. split; [reflexivity|].
  apply (find_all_games_ill_formed 0
           (mkGameState (replicate 11 false) (replicate 12 false)));
    [exact Hnwf|reflexivity].
Defined.

Lemma existsb_same_elements (t : Z) (p1 p2 : list Z) :
  (forall v, In v p1 <-> In v p2) ->
  existsb (Z.eqb t) p1 = existsb (Z.eqb t) p2.
Proof.
  intros H. apply eq_true_iff_eq. rewrite !existsb_exists.
  split; intros (v & Hv & Ht); exists v; split; try done; by apply H.
Qed.

(** X10.  Two recorded paths that select the same tiles, in whatever
    order and however often, record the same successor: the list the
    expansion returns then holds that state once for each of the paths. *)
Theorem same_tiles_same_successor (self : GameState) (roll : Z) :
  wf self ->
  exists recorded : list (list Z * GameState),
    get_next_states_traced self roll = OK recorded /\
    forall (p1 p2 : list Z) (s1 s2 : GameState),
      In (p1, s1) recorded -> In (p2, s2) recorded ->
      (forall v, In v p1 <-> In v p2) -> s1 = s2.
Proof.
  intros Hwf. eexists. split; [by apply get_next_states_traced_paths|].
  intros p1 p2 s1 s2 H1 H2 Hsame.
  apply in_map_iff in H1 as (q1 & E1 & Hq1).
  apply in_map_iff in H2 as (q2 & E2 & Hq2).
  unfold record in E1, E2. simpl in E1, E2.
  injection E1 as <- <-. injection E2 as <- <-.
  apply paths_In in Hq1 as (Hsel1 & _ & _).
  apply paths_In in Hq2 as (Hsel2 & _ & _).
  assert (Hf : _front_row (run self q1) = _front_row (run self q2)).
  { apply list_eq. intros i. rewrite !run_lookup_front.
    destruct (_front_row self !! i) as [f|] eqn:Hi; [|done]. simpl.
    destruct (selectable_hits self q1 i f Hsel1 Hi) as [-> _].
    destruct (selectable_hits self q2 i f Hsel2 Hi) as [-> _].
    by rewrite (existsb_same_elements _ _ _ Hsame). }
  assert (Hb : _back_row (run self q1) = _back_row (run self q2)).
  { apply list_eq. intros i. rewrite !run_lookup_back.
    destruct (_back_row self !! i) as [b|] eqn:Hi; [|done]. simpl.
    destruct (lookup_lt_is_Some_2 (_front_row self) i) as [f Hfi].
    { apply lookup_lt_Some in Hi. destruct Hwf as [-> Hlb]. by rewrite <- Hlb. }
    destruct (selectable_hits self q1 i f Hsel1 Hfi) as [_ ->].
    destruct (selectable_hits self q2 i f Hsel2 Hfi) as [_ ->].
    by rewrite (existsb_same_elements _ _ _ Hsame). }
  destruct (run self q1), (run self q2). simpl in *. by subst.
Qed.

Lemma same_tiles_same_successor_witness :
  wf GameState_init /\
  exists recorded : list (list Z * GameState),
    get_next_states_traced GameState_init 3 = OK recorded /\
    forall (p1 p2 : list Z) (s1 s2 : GameState),
      In (p1, s1) recorded -> In (p2, s2) recorded ->
      (forall v, In v p1 <-> In v p2) -> s1 = s2.
Proof.
  split; [split; reflexivity|].
  apply (same_tiles_same_successor GameState_init 3). split; reflexivity.
Defined.

(** * Further properties of the search *)

(** A loop whose body adds at least one game adds at least as many
    games as it has elements, and lowers no counter. *)
Lemma for_each_counts {A : Type} (xs : list A)
    (body : A -> AllGamesResult -> res AllGamesResult) :
  (forall x a a', body x a = OK a' ->
     num_won a <= num_won a' /\ num_lost a <= num_lost a' /\
     num_won a + num_lost a + 1 <= num_won a' + num_lost a') ->
  forall acc r, for_each xs body acc = OK r ->
    num_won acc <= num_won r /\ num_lost acc <= num_lost r /\
    num_won acc + num_lost acc + Z.of_nat (length xs)
      <= num_won r + num_lost r.
Proof.
  intros Hbody. induction xs as [|x xs IH]; intros acc r H; simpl in H.
  - injection H as <-. simpl. lia.
  - destruct (body x acc) as [acc'|e] eqn:E; simpl in H; [|done].
    apply Hbody in E. apply IH in H. simpl length. lia.
Qed.

(** X7.  Whenever the search returns, its two counters are not negative
    and count at least one game; on a state that is not won they count
    at least 36 games, one or more for each outcome of the dice. *)
Theorem find_all_games_counts (fuel : nat) :
  forall (state : GameState) (r : AllGamesResult),
  find_all_games fuel state = OK r ->
  0 <= num_won r /\ 0 <= num_lost r /\
  1 <= num_won r + num_lost r /\
  (is_won state = false -> 36 <= num_won r + num_lost r).
Proof.
  induction fuel as [|fuel IH]; intros state r H.
  { simpl in H. destruct (is_won state); [|done].
    injection H as <-. simpl. split_and!; (lia || done). }
  rewrite find_all_games_S in H. destruct (is_won state).
  { injection H as <-. simpl. split_and!; (lia || done). }
  apply for_each_counts in H.
  - change (length (dice_rolls 6)) with 36%nat in H. simpl in H.
    split_and!; lia.
  - clear H. intros roll a a' H.
    destruct (get_next_states state roll) as [next_states|e]; simpl in H; [|done].
    destruct next_states as [|s' l].
    + simpl in H. injection H as <-. simpl. lia.
    + apply for_each_counts in H; [simpl length in H; lia|].
      clear H. intros s'' b b' H.
      destruct (find_all_games fuel s'') as [x|e] eqn:E; simpl in H; [|done].
      injection H as <-. apply IH in E. simpl. lia.
Qed.

Lemma find_all_games_counts_witness :
  find_all_games 2
    (board [1;2;3;4;5;6;7;8;9;10;11;12] [1;2;3;4;5;6;7;8;9;10;11])
  = OK (mkAllGamesResult 1 35) /\
  0 <= num_won (mkAllGamesResult 1 35) /\
  0 <= num_lost (mkAllGamesResult 1 35) /\
  1 <= num_won (mkAllGamesResult 1 35) + num_lost (mkAllGamesResult 1 35) /\
  (is_won (board [1;2;3;4;5;6;7;8;9;10;11;12] [1;2;3;4;5;6;7;8;9;10;11]) = false ->
   36 <= num_won (mkAllGamesResult 1 35) + num_lost (mkAllGamesResult 1 35)).
Proof.
  split; [vm_compute; reflexivity|].
  apply (find_all_games_counts 2
           (board [1;2;3;4;5;6;7;8;9;10;11;12] [1;2;3;4;5;6;7;8;9;10;11])
           (mkAllGamesResult 1 35)).
  vm_compute. reflexivity.
Defined.

(** * Further properties of the dice *)

Lemma range_1_succ (n : Z) : range 1 (n + 1) = seqZ 1 (Z.of_nat (Z.to_nat n)).
Proof.
  unfold range, seqZ. rewrite Nat2Z.id. by replace (n + 1 - 1) with n by lia.
Qed.

(** X8.  For a die of any number of sides the rolls are the totals of
    all ordered pairs of faces: there are as many as the square of the
    number of sides (none when it is not positive), and a total is
    among them exactly when it is the sum of two faces. *)
Theorem dice_rolls_outcomes (num_sides : Z) :
  length (dice_rolls num_sides) = (Z.to_nat num_sides * Z.to_nat num_sides)%nat /\
  forall roll : Z,
    In roll (dice_rolls num_sides) <->
    exists a b : Z, 1 <= a <= num_sides /\ 1 <= b <= num_sides /\ roll = a + b.
Proof.
  unfold dice_rolls. split.
  - rewrite (flat_map_constant_length (c := Z.to_nat num_sides)).
    + unfold range. rewrite length_seqZ. f_equal. lia.
    + intros a _. rewrite length_map. unfold range. rewrite length_seqZ. lia.
  - intros roll. rewrite in_flat_map. split.
    + intros (a & Ha & Hr). apply in_map_iff in Hr as (b & <- & Hb).
      apply list_elem_of_In, elem_of_seqZ in Ha.
      apply list_elem_of_In, elem_of_seqZ in Hb.
      exists a, b. lia.
    + intros (a & b & Ha & Hb & ->). exists a. split.
      * apply list_elem_of_In, elem_of_seqZ. lia.
      * apply in_map_iff. exists b. split; [done|].
        apply list_elem_of_In, elem_of_seqZ. lia.
Qed.

Lemma selections_app (t : Z) (l1 l2 : list Z) :
  selections t (l1 ++ l2) = (selections t l1 + selections t l2)%nat.
Proof. unfold selections. by rewrite List.filter_app, length_app. Qed.

Lemma selections_inner (t a : Z) (n : nat) :
  selections t (map (fun b => a + b) (seqZ 1 (Z.of_nat n))) =
  if (1 <=? t - a) && (t - a <=? Z.of_nat n) then 1%nat else 0%nat.
Proof.
  induction n as [|n IH].
  - simpl. destruct (Z.leb_spec 1 (t - a)), (Z.leb_spec (t - a) (Z.of_nat 0));
      simpl; (done || lia).
  - rewrite seqZ_S, map_app, selections_app, IH. unfold selections. simpl.
    destruct (Z.eqb_spec t (a + (1 + Z.of_nat n)));
      destruct (Z.leb_spec 1 (t - a));
      destruct (Z.leb_spec (t - a) (Z.of_nat n));
      destruct (Z.leb_spec (t - a) (Z.of_nat (S n))); simpl; lia.
Qed.

Lemma selections_outer (t : Z) (n m : nat) :
  selections t
    (flat_map (fun a => map (fun b => a + b) (seqZ 1 (Z.of_nat n)))
              (seqZ 1 (Z.of_nat m))) =
  Z.to_nat (Z.min (Z.of_nat m) (t - 1) - Z.max 1 (t - Z.of_nat n) + 1).
Proof.
  induction m as [|m IH].
  - simpl. unfold selections. simpl. lia.
  - rewrite seqZ_S, flat_map_app, selections_app, IH. simpl flat_map.
    rewrite app_nil_r, selections_inner.
    destruct (Z.leb_spec 1 (t - (1 + Z.of_nat m)));
      destruct (Z.leb_spec (t - (1 + Z.of_nat m)) (Z.of_nat n)); simpl; lia.
Qed.

(** X9.  The rolls weigh the totals as two dice do: the total [t] occurs
    as often as there are ordered pairs of faces with that sum, which is
    the number of sides less the distance of [t] from the number of
    sides plus one (for six sides: once for 2 and for 12, six times for
    7, never outside 2..12). *)
Theorem dice_rolls_frequency (num_sides t : Z) :
  selections t (dice_rolls num_sides) =
  Z.to_nat (num_sides - Z.abs (t - (num_sides + 1))).
Proof.
  unfold dice_rolls. rewrite range_1_succ, selections_outer. lia.
Qed.
